(** * Overlay widget of the Shotgun model: mode machine, spinner and resize relay

    Shallow embedding of [python/shotgun_model/overlaywidget.py].

    The Python attributes of [OverlayWidget] ([_mode], [_spin_angle],
    [_message], [_message_pixmap], [_timer], [_parent], [_sg_icon]) are
    fields of one record, next to the part of the inherited [QWidget]
    state that the methods touch (visibility, geometry).  Every method is
    a state transformer on that record.  What the toolkit is asked to do
    is logged in the record too: each call of [repaint], and every frame
    issued through a [QPainter], command by command.

    Python integers are unbounded, hence [Z].  The module is Python 2
    code, so [/] on two integers is floor division, which is [Z.div]. *)

From Stdlib Require Import ZArith List String Bool Lia.
Import ListNotations.
Open Scope string_scope.
Open Scope list_scope.
Open Scope Z_scope.

(** ** Toolkit values *)

Record QSize := { width : Z; height : Z }.

Record QPixmap := {
  pixmap_source : string;
  pixmap_width : Z;
  pixmap_height : Z
}.

Record QTimer := { isActive : bool; interval : Z }.

Record QEvent := { event_type : Z }.

(** Enumeration values of the toolkit that the module refers to by name. *)
Module Qt.
Definition QEvent_Resize : Z := 14.
Definition WA_TransparentForMouseEvents : Z := 51.
Definition Antialiasing : Z := 1.
Definition AlignCenter : Z := 132.
Definition AlignVCenter : Z := 128.
Definition TextWordWrap : Z := 4096.
(** [drawArc] takes its two angles in sixteenths of a degree. *)
Definition angle_units (degrees : Z) : Z := degrees * 16.
Definition full_circle : Z := angle_units 360.
End Qt.

(** ** What a painter is asked to draw *)

Inductive PainterCall :=
| setRenderHint (hint : Z)
| setBrush (color : string)
| setPen (color : string) (pen_width : option Z)
| drawRect (x y w h : Z)
| translate (dx dy : Z)
| drawPixmap (x y : Z) (pixmap : QPixmap)
| drawArc (x y w h : Z) (startAngle spanAngle : Z)
| drawText (x y w h : Z) (flags : Z) (text : option string).

Inductive PyExn := AttributeError.

Inductive Outcome (A : Type) :=
| Returned (a : A)
| Raised (e : PyExn).
Arguments Returned {A} a.
Arguments Raised {A} e.

(** Code running between [painter.begin] and [painter.end]: it appends to
    the list of calls made so far and either returns or raises. *)
Definition Painter (A : Type) : Type :=
  list PainterCall -> list PainterCall * Outcome A.

Definition ret {A} (a : A) : Painter A := fun calls => (calls, Returned a).

Definition raise {A} (e : PyExn) : Painter A := fun calls => (calls, Raised e).

Definition bind {A B} (m : Painter A) (k : A -> Painter B) : Painter B :=
  fun calls =>
    match m calls with
    | (calls', Returned a) => k a calls'
    | (calls', Raised e) => (calls', Raised e)
    end.

Definition call (c : PainterCall) : Painter unit :=
  fun calls => (calls ++ [c], Returned tt).

(** Attribute access on a value that may be [None]. *)
Definition deref {A} (o : option A) : Painter A :=
  match o with
  | Some a => ret a
  | None => raise AttributeError
  end.

Declare Scope painter_scope.
Delimit Scope painter_scope with painter.
Notation "x <- m ;; k" := (bind m (fun x => k))
  (at level 61, m at next level, right associativity) : painter_scope.
Notation "m ;; k" := (bind m (fun _ => k))
  (at level 61, right associativity) : painter_scope.

(** One run of the painting code: the calls made, and how it ended. *)
Record Frame := {
  frame_calls : list PainterCall;
  frame_outcome : Outcome unit
}.

(** ** The resize relay and the parent it is installed on *)

(** The only slot this module ever connects: the bound method
    [self._on_parent_resized]. *)
Inductive Slot := slot_on_parent_resized.

(** [ResizeEventFilter]: its [resized] signal, as the slots connected. *)
Record ResizeEventFilter := { resized : list Slot }.

(** The host widget: its size, the event filters installed on it, and
    the events that went past the filters to the widget's own handling. *)
Record ParentWidget := {
  parent_size : QSize;
  eventFilters : list ResizeEventFilter;
  passed_on : list QEvent
}.

(** ** The overlay *)

Record OverlayWidget := {
  _parent : ParentWidget;
  _mode : Z;
  _timer : QTimer;
  _spin_angle : Z;
  _message_pixmap : option QPixmap;
  _message : option string;
  _sg_icon : QPixmap;
  (* inherited QWidget state *)
  isVisible : bool;
  size : QSize;
  attributes : list Z;
  (* what the toolkit was asked to do *)
  repaint_calls : nat;
  painted : list Frame
}.

Definition MODE_OFF : Z := 0.
Definition MODE_SPIN : Z := 1.
Definition MODE_ERROR : Z := 2.
Definition MODE_INFO_TEXT : Z := 3.
Definition MODE_INFO_PIXMAP : Z := 4.

Definition modes : list Z :=
  [MODE_OFF; MODE_SPIN; MODE_ERROR; MODE_INFO_TEXT; MODE_INFO_PIXMAP].

(** *** Field updates *)

Definition set_parent (p : ParentWidget) (w : OverlayWidget) : OverlayWidget :=
  {| _parent := p; _mode := _mode w; _timer := _timer w;
     _spin_angle := _spin_angle w; _message_pixmap := _message_pixmap w;
     _message := _message w; _sg_icon := _sg_icon w;
     isVisible := isVisible w; size := size w; attributes := attributes w;
     repaint_calls := repaint_calls w; painted := painted w |}.

Definition set_mode (m : Z) (w : OverlayWidget) : OverlayWidget :=
  {| _parent := _parent w; _mode := m; _timer := _timer w;
     _spin_angle := _spin_angle w; _message_pixmap := _message_pixmap w;
     _message := _message w; _sg_icon := _sg_icon w;
     isVisible := isVisible w; size := size w; attributes := attributes w;
     repaint_calls := repaint_calls w; painted := painted w |}.

Definition set_timer (t : QTimer) (w : OverlayWidget) : OverlayWidget :=
  {| _parent := _parent w; _mode := _mode w; _timer := t;
     _spin_angle := _spin_angle w; _message_pixmap := _message_pixmap w;
     _message := _message w; _sg_icon := _sg_icon w;
     isVisible := isVisible w; size := size w; attributes := attributes w;
     repaint_calls := repaint_calls w; painted := painted w |}.

Definition set_spin_angle (a : Z) (w : OverlayWidget) : OverlayWidget :=
  {| _parent := _parent w; _mode := _mode w; _timer := _timer w;
     _spin_angle := a; _message_pixmap := _message_pixmap w;
     _message := _message w; _sg_icon := _sg_icon w;
     isVisible := isVisible w; size := size w; attributes := attributes w;
     repaint_calls := repaint_calls w; painted := painted w |}.

Definition set_message_pixmap (p : option QPixmap) (w : OverlayWidget)
  : OverlayWidget :=
  {| _parent := _parent w; _mode := _mode w; _timer := _timer w;
     _spin_angle := _spin_angle w; _message_pixmap := p;
     _message := _message w; _sg_icon := _sg_icon w;
     isVisible := isVisible w; size := size w; attributes := attributes w;
     repaint_calls := repaint_calls w; painted := painted w |}.

Definition set_message (m : option string) (w : OverlayWidget)
  : OverlayWidget :=
  {| _parent := _parent w; _mode := _mode w; _timer := _timer w;
     _spin_angle := _spin_angle w; _message_pixmap := _message_pixmap w;
     _message := m; _sg_icon := _sg_icon w;
     isVisible := isVisible w; size := size w; attributes := attributes w;
     repaint_calls := repaint_calls w; painted := painted w |}.

Definition set_repaint_calls (n : nat) (w : OverlayWidget) : OverlayWidget :=
  {| _parent := _parent w; _mode := _mode w; _timer := _timer w;
     _spin_angle := _spin_angle w; _message_pixmap := _message_pixmap w;
     _message := _message w; _sg_icon := _sg_icon w;
     isVisible := isVisible w; size := size w; attributes := attributes w;
     repaint_calls := n; painted := painted w |}.

Definition set_painted (fs : list Frame) (w : OverlayWidget) : OverlayWidget :=
  {| _parent := _parent w; _mode := _mode w; _timer := _timer w;
     _spin_angle := _spin_angle w; _message_pixmap := _message_pixmap w;
     _message := _message w; _sg_icon := _sg_icon w;
     isVisible := isVisible w; size := size w; attributes := attributes w;
     repaint_calls := repaint_calls w; painted := fs |}.

(** *** Inherited QWidget and QTimer operations *)

Definition setVisible (b : bool) (w : OverlayWidget) : OverlayWidget :=
  {| _parent := _parent w; _mode := _mode w; _timer := _timer w;
     _spin_angle := _spin_angle w; _message_pixmap := _message_pixmap w;
     _message := _message w; _sg_icon := _sg_icon w;
     isVisible := b; size := size w; attributes := attributes w;
     repaint_calls := repaint_calls w; painted := painted w |}.

Definition resize (sz : QSize) (w : OverlayWidget) : OverlayWidget :=
  {| _parent := _parent w; _mode := _mode w; _timer := _timer w;
     _spin_angle := _spin_angle w; _message_pixmap := _message_pixmap w;
     _message := _message w; _sg_icon := _sg_icon w;
     isVisible := isVisible w; size := sz; attributes := attributes w;
     repaint_calls := repaint_calls w; painted := painted w |}.

Definition timer_start (msec : Z) (w : OverlayWidget) : OverlayWidget :=
  set_timer {| isActive := true; interval := msec |} w.

Definition timer_stop (w : OverlayWidget) : OverlayWidget :=
  set_timer {| isActive := false; interval := interval (_timer w) |} w.

(** *** [paintEvent] *)

Section Painting.
Local Open Scope painter_scope.

(** The body of the [try] block. [painter.device()] is the overlay. *)
Definition paint_body (w : OverlayWidget) : Painter unit :=
  let device := size w in
  call (setRenderHint Qt.Antialiasing) ;;
  let overlay_color := "#1B1B1B" in
  call (setBrush overlay_color) ;;
  call (setPen overlay_color None) ;;
  call (drawRect 0 0 (width device) (height device)) ;;
  if _mode w =? MODE_SPIN then
    call (translate (width device / 2 - 40) (height device / 2 - 40)) ;;
    call (setPen "#424141" (Some 3)) ;;
    call (drawPixmap 8 24 (_sg_icon w)) ;;
    let start_angle := (0 + _spin_angle w) * 4 * 16 in
    let span_angle := 340 * 16 in
    call (drawArc 0 0 80 80 start_angle span_angle)
  else if _mode w =? MODE_INFO_TEXT then
    call (setPen "#888888" None) ;;
    let text_flags :=
      Z.lor (Z.lor Qt.AlignCenter Qt.AlignVCenter) Qt.TextWordWrap in
    call (drawText 0 0 (width device) (height device) text_flags (_message w))
  else if _mode w =? MODE_ERROR then
    call (setPen "#C8534A" None) ;;
    let text_flags :=
      Z.lor (Z.lor Qt.AlignCenter Qt.AlignVCenter) Qt.TextWordWrap in
    call (drawText 0 0 (width device) (height device) text_flags (_message w))
  else if _mode w =? MODE_INFO_PIXMAP then
    pw <- deref (_message_pixmap w) ;;
    ph <- deref (_message_pixmap w) ;;
    call (translate (width device / 2 - pixmap_width pw / 2)
                    (height device / 2 - pixmap_height ph / 2)) ;;
    pm <- deref (_message_pixmap w) ;;
    call (drawPixmap 0 0 pm)
  else
    ret tt.

End Painting.

(** [painter.end()] sits in the [finally] clause, so the frame is closed
    however the body ended. *)
Definition render (w : OverlayWidget) : Frame :=
  let '(calls, outcome) := paint_body w [] in
  {| frame_calls := calls; frame_outcome := outcome |}.

Definition paintEvent (w : OverlayWidget) : OverlayWidget :=
  if _mode w =? MODE_OFF then w
  else set_painted (painted w ++ [render w]) w.

(** [QWidget.repaint]: calls [paintEvent] at once, unless the widget is
    hidden. *)
Definition repaint (w : OverlayWidget) : OverlayWidget :=
  let w := set_repaint_calls (S (repaint_calls w)) w in
  if isVisible w then paintEvent w else w.

(** *** Slots *)

Definition _on_parent_resized (w : OverlayWidget) : OverlayWidget :=
  resize (parent_size (_parent w)) w.

Definition on_animation (w : OverlayWidget) : OverlayWidget :=
  let w := set_spin_angle (_spin_angle w + 1) w in
  let w := if _spin_angle w =? 90 then set_spin_angle 0 w else w in
  repaint w.

(** *** Public interface *)

Definition start_spin (w : OverlayWidget) : OverlayWidget :=
  let w := timer_start 40 w in
  let w := setVisible true w in
  set_mode MODE_SPIN w.

Definition show_error_message (msg : option string) (w : OverlayWidget)
  : OverlayWidget :=
  let w := timer_stop w in
  let w := setVisible true w in
  let w := set_message msg w in
  let w := set_mode MODE_ERROR w in
  repaint w.

Definition show_message (msg : option string) (w : OverlayWidget)
  : OverlayWidget :=
  let w := timer_stop w in
  let w := setVisible true w in
  let w := set_message msg w in
  let w := set_mode MODE_INFO_TEXT w in
  repaint w.

Definition show_message_pixmap (pixmap : option QPixmap) (w : OverlayWidget)
  : OverlayWidget :=
  let w := timer_stop w in
  let w := setVisible true w in
  let w := set_message_pixmap pixmap w in
  let w := set_mode MODE_INFO_PIXMAP w in
  repaint w.

Definition hide (w : OverlayWidget) : OverlayWidget :=
  let w := timer_stop w in
  let w := set_mode MODE_OFF w in
  setVisible false w.

(** *** [ResizeEventFilter] *)

Definition run_slot (sl : Slot) (w : OverlayWidget) : OverlayWidget :=
  match sl with
  | slot_on_parent_resized => _on_parent_resized w
  end.

(** [signal.emit()]: the connected slots run in connection order. *)
Definition emit (slots : list Slot) (w : OverlayWidget) : OverlayWidget :=
  fold_left (fun w sl => run_slot sl w) slots w.

(** Returns the state after the slots ran, and the filter's verdict:
    [true] would stop the event there. *)
Definition eventFilter (self : ResizeEventFilter) (event : QEvent)
    (w : OverlayWidget) : OverlayWidget * bool :=
  let w :=
    if event_type event =? Qt.QEvent_Resize then emit (resized self) w
    else w in
  (w, false).

(** *** Constructor *)

(** [geometry] is the size the toolkit gives a new child widget and
    [sg_logo] the pixmap loaded from the resource file. *)
Definition __init__ (parent : ParentWidget) (geometry : QSize)
    (sg_logo : QPixmap) : OverlayWidget :=
  let filter := {| resized := [slot_on_parent_resized] |} in
  let parent :=
    {| parent_size := parent_size parent;
       eventFilters := filter :: eventFilters parent;
       passed_on := passed_on parent |} in
  {| _parent := parent;
     _mode := MODE_OFF;
     _timer := {| isActive := false; interval := 0 |};
     _spin_angle := 0;
     _message_pixmap := None;
     _message := None;
     _sg_icon := sg_logo;
     isVisible := false;
     size := geometry;
     attributes := [Qt.WA_TransparentForMouseEvents];
     repaint_calls := 0%nat;
     painted := [] |}.

(** ** The toolkit's side of the event loop *)

(** Filters run in turn until one returns [true]. *)
Fixpoint run_filters (fs : list ResizeEventFilter) (event : QEvent)
    (w : OverlayWidget) : OverlayWidget * bool :=
  match fs with
  | [] => (w, false)
  | f :: fs' =>
      let '(w', stop) := eventFilter f event w in
      if stop then (w', true) else run_filters fs' event w'
  end.

Definition pass_on (event : QEvent) (w : OverlayWidget) : OverlayWidget :=
  let p := _parent w in
  set_parent {| parent_size := parent_size p;
                eventFilters := eventFilters p;
                passed_on := passed_on p ++ [event] |} w.

(** An event sent to the parent: it reaches the parent's own handling
    only if no filter stopped it. *)
Definition notify_parent (event : QEvent) (w : OverlayWidget)
  : OverlayWidget :=
  let '(w', stopped) := run_filters (eventFilters (_parent w)) event w in
  if stopped then w' else pass_on event w'.

Definition resize_event : QEvent := {| event_type := Qt.QEvent_Resize |}.

(** The parent is resized: its size changes, then it is sent the event. *)
Definition parent_resized (sz : QSize) (w : OverlayWidget) : OverlayWidget :=
  let p := _parent w in
  let w := set_parent {| parent_size := sz;
                         eventFilters := eventFilters p;
                         passed_on := passed_on p |} w in
  notify_parent resize_event w.

(** The timer's [timeout] signal is connected to [on_animation]; a
    stopped timer does not fire. *)
Definition timeout (w : OverlayWidget) : OverlayWidget :=
  if isActive (_timer w) then on_animation w else w.

Definition timer_fires (n : nat) (w : OverlayWidget) : OverlayWidget :=
  Nat.iter n timeout w.

(** The toolkit asks shown widgets to paint themselves. *)
Definition paint_request (w : OverlayWidget) : OverlayWidget :=
  if isVisible w then paintEvent w else w.

(** ** Runs *)

Inductive Call :=
| call_start_spin
| call_show_error_message (msg : option string)
| call_show_message (msg : option string)
| call_show_message_pixmap (pixmap : option QPixmap)
| call_hide.

Definition perform (c : Call) (w : OverlayWidget) : OverlayWidget :=
  match c with
  | call_start_spin => start_spin w
  | call_show_error_message msg => show_error_message msg w
  | call_show_message msg => show_message msg w
  | call_show_message_pixmap pixmap => show_message_pixmap pixmap w
  | call_hide => hide w
  end.

(** The states after each call of a sequence, in order. *)
Fixpoint states_after (cs : list Call) (w : OverlayWidget)
  : list OverlayWidget :=
  match cs with
  | [] => []
  | c :: cs' => let w' := perform c w in w' :: states_after cs' w'
  end.

Inductive Event :=
| Public (c : Call)
| TimerFired
| PaintRequested
| ParentResized (sz : QSize)
| ParentEvent (event : QEvent).

Definition step (e : Event) (w : OverlayWidget) : OverlayWidget :=
  match e with
  | Public c => perform c w
  | TimerFired => timeout w
  | PaintRequested => paint_request w
  | ParentResized sz => parent_resized sz w
  | ParentEvent event => notify_parent event w
  end.

Definition run (es : list Event) (w : OverlayWidget) : OverlayWidget :=
  fold_left (fun w e => step e w) es w.

Definition fresh_parent (sz : QSize) : ParentWidget :=
  {| parent_size := sz; eventFilters := []; passed_on := [] |}.

(** The states an overlay can be in: built by the constructor on some
    parent, then driven by calls and toolkit events. *)
Definition reachable (w : OverlayWidget) : Prop :=
  exists parent_sz geometry sg_logo es,
    w = run es (__init__ (fresh_parent parent_sz) geometry sg_logo).

(** ** Observations used in the statements *)

Definition active_modes (w : OverlayWidget) : list Z :=
  filter (fun m => _mode w =? m) modes.

Definition timer_iff_spinning (w : OverlayWidget) : Prop :=
  isActive (_timer w) = true <-> _mode w = MODE_SPIN.

Fixpoint texts_drawn (calls : list PainterCall) : list (option string) :=
  match calls with
  | [] => []
  | drawText _ _ _ _ _ text :: rest => text :: texts_drawn rest
  | _ :: rest => texts_drawn rest
  end.

Fixpoint pixmaps_drawn (calls : list PainterCall) : list QPixmap :=
  match calls with
  | [] => []
  | drawPixmap _ _ pixmap :: rest => pixmap :: pixmaps_drawn rest
  | _ :: rest => pixmaps_drawn rest
  end.

Fixpoint arcs_drawn (calls : list PainterCall) : list (Z * Z) :=
  match calls with
  | [] => []
  | drawArc _ _ _ _ startAngle spanAngle :: rest =>
      (startAngle, spanAngle) :: arcs_drawn rest
  | _ :: rest => arcs_drawn rest
  end.

(** Two overlays that agree on the mode, on the drawing surface and on
    the payload of that mode; every other payload field is free. *)
Definition same_active_payload (w1 w2 : OverlayWidget) : Prop :=
  _mode w1 = _mode w2 /\ size w1 = size w2 /\
  (_mode w1 = MODE_SPIN ->
     _spin_angle w1 = _spin_angle w2 /\ _sg_icon w1 = _sg_icon w2) /\
  (_mode w1 = MODE_ERROR \/ _mode w1 = MODE_INFO_TEXT ->
     _message w1 = _message w2) /\
  (_mode w1 = MODE_INFO_PIXMAP -> _message_pixmap w1 = _message_pixmap w2).

(** The invariant of reachable states. *)
Record invariant (w : OverlayWidget) : Prop := {
  inv_timer : timer_iff_spinning w;
  inv_mode : In (_mode w) modes;
  inv_angle : 0 <= _spin_angle w < 90;
  inv_hidden : _mode w = MODE_OFF -> isVisible w = false;
  inv_relay :
    eventFilters (_parent w) = [{| resized := [slot_on_parent_resized] |}]
}.

(** ** Sample states *)

Definition logo : QPixmap :=
  {| pixmap_source := ":/tk_framework_shotgunutils.shotgun_model/sg_logo.png";
     pixmap_width := 64; pixmap_height := 32 |}.

Definition sample : OverlayWidget :=
  __init__ (fresh_parent {| width := 640; height := 480 |})
           {| width := 100; height := 30 |} logo.

(** A first spinning session of five ticks, ended by [hide]. *)
Definition after_session : OverlayWidget :=
  run [Public call_start_spin; TimerFired; TimerFired; TimerFired;
       TimerFired; TimerFired; Public call_hide] sample.

(** An error message, then an info message; and the same state with
    other values in the fields that [MODE_INFO_TEXT] does not use. *)
Definition shown_y : OverlayWidget :=
  show_message (Some "y") (show_error_message (Some "x") sample).

Definition shown_y_stale : OverlayWidget :=
  set_message_pixmap (Some logo) (set_spin_angle 7 shown_y).

(** ** Further observations *)

(** The four calls every frame opens with: antialiasing, brush and pen in
    the overlay colour, and a rectangle over the whole surface. *)
Definition backdrop (surface : QSize) : list PainterCall :=
  [setRenderHint Qt.Antialiasing; setBrush "#1B1B1B";
   setPen "#1B1B1B" None;
   drawRect 0 0 (width surface) (height surface)].

(** The frame left by a painting that stops right after the backdrop. *)
Definition broken_frame (surface : QSize) : Frame :=
  {| frame_calls := backdrop surface; frame_outcome := Raised AttributeError |}.

(** The text, and the image, last handed over by the events so far. *)
Definition text_after (e : Event) (text : option string) : option string :=
  match e with
  | Public (call_show_error_message msg) => msg
  | Public (call_show_message msg) => msg
  | _ => text
  end.

Definition image_after (e : Event) (image : option QPixmap)
  : option QPixmap :=
  match e with
  | Public (call_show_message_pixmap pixmap) => pixmap
  | _ => image
  end.

Definition is_parent_event (e : Event) : bool :=
  match e with
  | ParentResized _ | ParentEvent _ => true
  | _ => false
  end.

(** The overlay covers its parent. *)
Definition synced (w : OverlayWidget) : Prop :=
  size w = parent_size (_parent w).

(** A second invariant: shown exactly when on, and a running timer runs
    at 40 ms. *)
Record shown_when_on (w : OverlayWidget) : Prop := {
  on_visible : isVisible w = negb (_mode w =? MODE_OFF);
  on_interval : isActive (_timer w) = true -> interval (_timer w) = 40
}.

(** The state after a sequence of calls. *)
Definition perform_all (cs : list Call) (w : OverlayWidget) : OverlayWidget :=
  fold_left (fun w c => perform c w) cs w.

(** *** More sample states *)

Definition spinning : OverlayWidget := start_spin sample.

Definition picture : QPixmap :=
  {| pixmap_source := "thumbnail"; pixmap_width := 33; pixmap_height := 20 |}.

Definition showing_picture : OverlayWidget :=
  show_message_pixmap (Some picture) sample.




(** * Properties *)

(** ** Painting and repainting touch nothing but the logs *)

Lemma paintEvent_painted (w : OverlayWidget) :
  painted (paintEvent w) =
  if _mode w =? MODE_OFF then painted w else painted w ++ [render w].
Proof.
  unfold paintEvent. destruct (_mode w =? MODE_OFF); reflexivity.
Qed.

Lemma paintEvent_fields (w : OverlayWidget) :
  _parent (paintEvent w) = _parent w /\
  _mode (paintEvent w) = _mode w /\
  _timer (paintEvent w) = _timer w /\
  _spin_angle (paintEvent w) = _spin_angle w /\
  _message_pixmap (paintEvent w) = _message_pixmap w /\
  _message (paintEvent w) = _message w /\
  _sg_icon (paintEvent w) = _sg_icon w /\
  isVisible (paintEvent w) = isVisible w /\
  size (paintEvent w) = size w /\
  attributes (paintEvent w) = attributes w /\
  repaint_calls (paintEvent w) = repaint_calls w.
Proof.
  unfold paintEvent. destruct (_mode w =? MODE_OFF); simpl; repeat split.
Qed.

Lemma repaint_fields (w : OverlayWidget) :
  _parent (repaint w) = _parent w /\
  _mode (repaint w) = _mode w /\
  _timer (repaint w) = _timer w /\
  _spin_angle (repaint w) = _spin_angle w /\
  _message_pixmap (repaint w) = _message_pixmap w /\
  _message (repaint w) = _message w /\
  _sg_icon (repaint w) = _sg_icon w /\
  isVisible (repaint w) = isVisible w /\
  size (repaint w) = size w /\
  attributes (repaint w) = attributes w /\
  repaint_calls (repaint w) = S (repaint_calls w).
Proof.
  unfold repaint. simpl.
  destruct (isVisible w) eqn:E.
  - pose proof (paintEvent_fields (set_repaint_calls (S (repaint_calls w)) w))
      as H.
    simpl in H. rewrite E in H. exact H.
  - simpl. repeat split. exact E.
Qed.

(** Rewrites every field of [repaint w] and [paintEvent w] but the logs. *)
Ltac through_paint :=
  repeat match goal with
  | |- context [?f (repaint ?w)] =>
      first
        [ rewrite (proj1 (repaint_fields w))
        | rewrite (proj1 (proj2 (repaint_fields w)))
        | rewrite (proj1 (proj2 (proj2 (repaint_fields w))))
        | rewrite (proj1 (proj2 (proj2 (proj2 (repaint_fields w)))))
        | rewrite (proj1 (proj2 (proj2 (proj2 (proj2 (repaint_fields w))))))
        | rewrite (proj1 (proj2 (proj2 (proj2 (proj2 (proj2
                     (repaint_fields w)))))))
        | rewrite (proj1 (proj2 (proj2 (proj2 (proj2 (proj2 (proj2
                     (repaint_fields w))))))))
        | rewrite (proj1 (proj2 (proj2 (proj2 (proj2 (proj2 (proj2 (proj2
                     (repaint_fields w)))))))))
        | rewrite (proj1 (proj2 (proj2 (proj2 (proj2 (proj2 (proj2 (proj2
                     (proj2 (repaint_fields w))))))))))
        | rewrite (proj1 (proj2 (proj2 (proj2 (proj2 (proj2 (proj2 (proj2
                     (proj2 (proj2 (repaint_fields w)))))))))))
        | rewrite (proj2 (proj2 (proj2 (proj2 (proj2 (proj2 (proj2 (proj2
                     (proj2 (proj2 (repaint_fields w))))))))))) ]
  | |- context [?f (paintEvent ?w)] =>
      first
        [ rewrite (proj1 (paintEvent_fields w))
        | rewrite (proj1 (proj2 (paintEvent_fields w)))
        | rewrite (proj1 (proj2 (proj2 (paintEvent_fields w))))
        | rewrite (proj1 (proj2 (proj2 (proj2 (paintEvent_fields w)))))
        | rewrite (proj1 (proj2 (proj2 (proj2 (proj2 (paintEvent_fields w))))))
        | rewrite (proj1 (proj2 (proj2 (proj2 (proj2 (proj2
                     (paintEvent_fields w)))))))
        | rewrite (proj1 (proj2 (proj2 (proj2 (proj2 (proj2 (proj2
                     (paintEvent_fields w))))))))
        | rewrite (proj1 (proj2 (proj2 (proj2 (proj2 (proj2 (proj2 (proj2
                     (paintEvent_fields w)))))))))
        | rewrite (proj1 (proj2 (proj2 (proj2 (proj2 (proj2 (proj2 (proj2
                     (proj2 (paintEvent_fields w))))))))))
        | rewrite (proj1 (proj2 (proj2 (proj2 (proj2 (proj2 (proj2 (proj2
                     (proj2 (proj2 (paintEvent_fields w)))))))))))
        | rewrite (proj2 (proj2 (proj2 (proj2 (proj2 (proj2 (proj2 (proj2
                     (proj2 (proj2 (paintEvent_fields w))))))))))) ]
  end.

(** ** The invariant *)

Lemma mode_constants_distinct : NoDup modes.
Proof.
  unfold modes, MODE_OFF, MODE_SPIN, MODE_ERROR, MODE_INFO_TEXT,
    MODE_INFO_PIXMAP.
  repeat constructor; simpl; intuition congruence.
Qed.

Lemma active_modes_one (w : OverlayWidget) :
  In (_mode w) modes -> List.length (active_modes w) = 1%nat.
Proof.
  unfold active_modes, modes, MODE_OFF, MODE_SPIN, MODE_ERROR,
    MODE_INFO_TEXT, MODE_INFO_PIXMAP.
  simpl. intros [H | [H | [H | [H | [H | []]]]]]; rewrite <- H; reflexivity.
Qed.

Lemma perform_establishes (c : Call) (w : OverlayWidget) :
  timer_iff_spinning (perform c w) /\ In (_mode (perform c w)) modes.
Proof.
  unfold timer_iff_spinning.
  destruct c; simpl;
    unfold show_error_message, show_message, show_message_pixmap, start_spin,
      hide;
    through_paint; simpl; unfold modes, MODE_OFF, MODE_SPIN, MODE_ERROR,
      MODE_INFO_TEXT, MODE_INFO_PIXMAP; simpl;
    (split; [split; intro; (reflexivity || discriminate) | tauto]).
Qed.

Lemma on_animation_angle (w : OverlayWidget) :
  _spin_angle (on_animation w) =
  if _spin_angle w =? 89 then 0 else _spin_angle w + 1.
Proof.
  unfold on_animation. through_paint. simpl.
  destruct (_spin_angle w + 1 =? 90) eqn:E90;
    destruct (_spin_angle w =? 89) eqn:E89; simpl; lia.
Qed.

Lemma on_animation_fields (w : OverlayWidget) :
  _parent (on_animation w) = _parent w /\
  _mode (on_animation w) = _mode w /\
  _timer (on_animation w) = _timer w /\
  isVisible (on_animation w) = isVisible w /\
  size (on_animation w) = size w /\
  _message (on_animation w) = _message w /\
  _message_pixmap (on_animation w) = _message_pixmap w /\
  repaint_calls (on_animation w) = S (repaint_calls w).
Proof.
  unfold on_animation. through_paint. simpl.
  destruct (_spin_angle w + 1 =? 90); simpl; repeat split.
Qed.

Lemma perform_angle (c : Call) (w : OverlayWidget) :
  _spin_angle (perform c w) = _spin_angle w.
Proof.
  destruct c; simpl;
    unfold show_error_message, show_message, show_message_pixmap, start_spin,
      hide;
    through_paint; reflexivity.
Qed.

Lemma perform_parent (c : Call) (w : OverlayWidget) :
  _parent (perform c w) = _parent w.
Proof.
  destruct c; simpl;
    unfold show_error_message, show_message, show_message_pixmap, start_spin,
      hide;
    through_paint; reflexivity.
Qed.

Lemma perform_hidden (c : Call) (w : OverlayWidget) :
  _mode (perform c w) = MODE_OFF -> isVisible (perform c w) = false.
Proof.
  destruct c; simpl;
    unfold show_error_message, show_message, show_message_pixmap, start_spin,
      hide;
    through_paint; simpl; (discriminate || reflexivity).
Qed.

(** With the relay as the only filter, an event sent to the parent runs
    the relay's slot on a resize and is passed on in every case. *)
Lemma notify_parent_relay (event : QEvent) (w : OverlayWidget) :
  eventFilters (_parent w) = [{| resized := [slot_on_parent_resized] |}] ->
  notify_parent event w =
  pass_on event
    (if event_type event =? Qt.QEvent_Resize then _on_parent_resized w else w).
Proof.
  intros H. unfold notify_parent. rewrite H. simpl.
  unfold eventFilter. simpl.
  destruct (event_type event =? Qt.QEvent_Resize); reflexivity.
Qed.

Lemma invariant_init (parent_sz geometry : QSize) (sg_logo : QPixmap) :
  invariant (__init__ (fresh_parent parent_sz) geometry sg_logo).
Proof.
  constructor; simpl.
  - unfold timer_iff_spinning. simpl. split; discriminate.
  - left. reflexivity.
  - lia.
  - reflexivity.
  - reflexivity.
Qed.

Lemma invariant_notify (event : QEvent) (w : OverlayWidget) :
  invariant w -> invariant (notify_parent event w).
Proof.
  intros [Ht Hm Ha Hh Hr].
  rewrite (notify_parent_relay event w Hr).
  destruct (event_type event =? Qt.QEvent_Resize);
    constructor; simpl; assumption.
Qed.

Lemma step_invariant (e : Event) (w : OverlayWidget) :
  invariant w -> invariant (step e w).
Proof.
  intros Hinv. destruct e as [c | | | sz | event]; simpl.
  - destruct Hinv as [Ht Hm Ha Hh Hr].
    destruct (perform_establishes c w) as [Ht' Hm'].
    constructor.
    + exact Ht'.
    + exact Hm'.
    + rewrite perform_angle. exact Ha.
    + apply perform_hidden.
    + rewrite perform_parent. exact Hr.
  - unfold timeout. destruct (isActive (_timer w)); [| exact Hinv].
    destruct Hinv as [Ht Hm Ha Hh Hr].
    destruct (on_animation_fields w) as (Ep & Em & Et & Ev & _).
    constructor.
    + unfold timer_iff_spinning. rewrite Et, Em. exact Ht.
    + rewrite Em. exact Hm.
    + rewrite on_animation_angle.
      destruct (_spin_angle w =? 89) eqn:E; lia.
    + rewrite Em, Ev. exact Hh.
    + rewrite Ep. exact Hr.
  - unfold paint_request. destruct (isVisible w); [| exact Hinv].
    destruct Hinv as [Ht Hm Ha Hh Hr].
    constructor; unfold timer_iff_spinning; through_paint; assumption.
  - unfold parent_resized. apply invariant_notify.
    destruct Hinv as [Ht Hm Ha Hh Hr].
    constructor; simpl; assumption.
  - apply invariant_notify. exact Hinv.
Qed.

Lemma run_invariant (es : list Event) (w : OverlayWidget) :
  invariant w -> invariant (run es w).
Proof.
  revert w. induction es as [| e es IH]; intros w Hinv; simpl.
  - exact Hinv.
  - apply IH. apply step_invariant. exact Hinv.
Qed.

Lemma reachable_invariant (w : OverlayWidget) :
  reachable w -> invariant w.
Proof.
  intros (parent_sz & geometry & sg_logo & es & ->).
  apply run_invariant. apply invariant_init.
Qed.

Lemma reachable_step (e : Event) (w : OverlayWidget) :
  reachable w -> reachable (step e w).
Proof.
  intros (parent_sz & geometry & sg_logo & es & ->).
  exists parent_sz, geometry, sg_logo, (es ++ [e]).
  unfold run. rewrite fold_left_app. reflexivity.
Qed.

Lemma reachable_sample : reachable sample.
Proof.
  exists {| width := 640; height := 480 |}, {| width := 100; height := 30 |},
    logo, []. reflexivity.
Defined.

Lemma reachable_after_session : reachable after_session.
Proof.
  exists {| width := 640; height := 480 |}, {| width := 100; height := 30 |},
    logo,
    [Public call_start_spin; TimerFired; TimerFired; TimerFired;
     TimerFired; TimerFired; Public call_hide].
  reflexivity.
Defined.

(** ** What a frame depends on *)

Lemma render_congr (w1 w2 : OverlayWidget) :
  size w1 = size w2 -> _mode w1 = _mode w2 ->
  _spin_angle w1 = _spin_angle w2 -> _sg_icon w1 = _sg_icon w2 ->
  _message w1 = _message w2 -> _message_pixmap w1 = _message_pixmap w2 ->
  render w1 = render w2.
Proof.
  intros Hs Hm Ha Hi Ht Hp. unfold render, paint_body.
  rewrite Hs, Hm, Ha, Hi, Ht, Hp. reflexivity.
Qed.

Lemma repaint_painted (w : OverlayWidget) :
  painted (repaint w) =
  if isVisible w && negb (_mode w =? MODE_OFF)
  then painted w ++ [render w] else painted w.
Proof.
  unfold repaint. simpl. destruct (isVisible w); simpl; [| reflexivity].
  rewrite paintEvent_painted. simpl.
  destruct (_mode w =? MODE_OFF); simpl; [reflexivity |].
  f_equal.
Qed.

Lemma render_repaint (w : OverlayWidget) : render (repaint w) = render w.
Proof.
  apply render_congr; through_paint; reflexivity.
Qed.

(** The frames of the three message modes, call by call. *)
Lemma render_text_modes (w : OverlayWidget) :
  _mode w = MODE_ERROR \/ _mode w = MODE_INFO_TEXT ->
  texts_drawn (frame_calls (render w)) = [_message w] /\
  pixmaps_drawn (frame_calls (render w)) = [] /\
  arcs_drawn (frame_calls (render w)) = [].
Proof.
  unfold render, paint_body.
  intros [H | H]; rewrite H; repeat split.
Qed.

Lemma render_pixmap_mode (w : OverlayWidget) (image : QPixmap) :
  _mode w = MODE_INFO_PIXMAP -> _message_pixmap w = Some image ->
  texts_drawn (frame_calls (render w)) = [] /\
  pixmaps_drawn (frame_calls (render w)) = [image] /\
  arcs_drawn (frame_calls (render w)) = [].
Proof.
  unfold render, paint_body.
  intros H Hp; rewrite H, Hp; repeat split.
Qed.

Lemma render_spin_mode (w : OverlayWidget) :
  _mode w = MODE_SPIN ->
  texts_drawn (frame_calls (render w)) = [] /\
  pixmaps_drawn (frame_calls (render w)) = [_sg_icon w] /\
  arcs_drawn (frame_calls (render w)) =
    [((0 + _spin_angle w) * 4 * 16, 340 * 16)].
Proof.
  unfold render, paint_body.
  intros H; rewrite H; repeat split.
Qed.

(** ** Timer ticks *)

Lemma timeout_timer (w : OverlayWidget) : _timer (timeout w) = _timer w.
Proof.
  unfold timeout. destruct (isActive (_timer w)); [| reflexivity].
  apply (on_animation_fields w).
Qed.

Lemma timer_fires_timer (n : nat) (w : OverlayWidget) :
  _timer (timer_fires n w) = _timer w.
Proof.
  induction n as [| n IH]; simpl; [reflexivity |].
  rewrite timeout_timer. exact IH.
Qed.

Lemma timer_fires_angle (n : nat) (w : OverlayWidget) :
  isActive (_timer w) = true -> 0 <= _spin_angle w < 90 ->
  _spin_angle (timer_fires n w) = (_spin_angle w + Z.of_nat n) mod 90.
Proof.
  intros Hact Hrange. induction n as [| n IH].
  - simpl. rewrite Z.add_0_r. symmetry. apply Z.mod_small. exact Hrange.
  - change (timer_fires (S n) w) with (timeout (timer_fires n w)).
    unfold timeout. rewrite timer_fires_timer, Hact.
    rewrite on_animation_angle, IH.
    assert (Hm : 0 <= (_spin_angle w + Z.of_nat n) mod 90 < 90)
      by (apply Z.mod_pos_bound; lia).
    replace (_spin_angle w + Z.of_nat (S n))
      with ((_spin_angle w + Z.of_nat n) + 1) by lia.
    rewrite <- (Z.add_mod_idemp_l (_spin_angle w + Z.of_nat n) 1 90) by lia.
    destruct ((_spin_angle w + Z.of_nat n) mod 90 =? 89) eqn:E.
    + apply Z.eqb_eq in E. rewrite E. reflexivity.
    + apply Z.eqb_neq in E. symmetry. apply Z.mod_small. lia.
Qed.

(** * The claims *)

(** C1. Whatever the starting state and whatever the sequence of calls
    to [start_spin], [show_error_message], [show_message],
    [show_message_pixmap] and [hide], every state reached after a call has
    exactly one of the five modes active, and its timer is running if and
    only if the mode is [MODE_SPIN]. *)
Theorem one_mode_and_timer_iff_spinning (cs : list Call) (w : OverlayWidget) :
  Forall
    (fun w' =>
       List.length (active_modes w') = 1%nat /\
       (isActive (_timer w') = true <-> _mode w' = MODE_SPIN))
    (states_after cs w).
Proof.
  revert w. induction cs as [| c cs IH]; intros w; simpl.
  - constructor.
  - constructor; [| apply IH].
    destruct (perform_establishes c w) as [Ht Hm].
    split; [apply active_modes_one; exact Hm | exact Ht].
Qed.

(** C2. For a text that is not [None], [show_error_message] sets the mode
    to [MODE_ERROR], stores exactly that text as the message, stops the
    timer, makes the overlay visible and repaints at once: one more
    [repaint] call, and one more frame, which is the rendering of the new
    state and draws that text.  [show_message] does the same with
    [MODE_INFO_TEXT], and [show_message_pixmap] with [MODE_INFO_PIXMAP]
    and the image field. *)
Theorem show_operations_effect (text : string) (image : QPixmap)
    (w : OverlayWidget) :
  (let w' := show_error_message (Some text) w in
   _mode w' = MODE_ERROR /\ _message w' = Some text /\
   isActive (_timer w') = false /\ isVisible w' = true /\
   repaint_calls w' = S (repaint_calls w) /\
   painted w' = painted w ++ [render w'] /\
   texts_drawn (frame_calls (render w')) = [Some text]) /\
  (let w' := show_message (Some text) w in
   _mode w' = MODE_INFO_TEXT /\ _message w' = Some text /\
   isActive (_timer w') = false /\ isVisible w' = true /\
   repaint_calls w' = S (repaint_calls w) /\
   painted w' = painted w ++ [render w'] /\
   texts_drawn (frame_calls (render w')) = [Some text]) /\
  (let w' := show_message_pixmap (Some image) w in
   _mode w' = MODE_INFO_PIXMAP /\ _message_pixmap w' = Some image /\
   isActive (_timer w') = false /\ isVisible w' = true /\
   repaint_calls w' = S (repaint_calls w) /\
   painted w' = painted w ++ [render w'] /\
   pixmaps_drawn (frame_calls (render w')) = [image]).
Proof.
  repeat split;
    unfold show_error_message, show_message, show_message_pixmap;
    try rewrite render_repaint; try rewrite repaint_painted;
    through_paint; reflexivity.
Qed.

(** C3. In every reachable state, resizing the parent to a size [sz]
    leaves the overlay with exactly that size: the relay installed by the
    constructor answers the resize event by running
    [_on_parent_resized].  The relay's verdict is [false] for every event,
    so the resize event goes on to the parent's own handling. *)
Theorem parent_resize_is_relayed (sz : QSize) (w : OverlayWidget) :
  reachable w ->
  let w' := parent_resized sz w in
  size w' = sz /\
  parent_size (_parent w') = sz /\
  passed_on (_parent w') = passed_on (_parent w) ++ [resize_event] /\
  (forall f w0, In f (eventFilters (_parent w)) ->
     eventFilter f resize_event w0 = (_on_parent_resized w0, false)) /\
  (forall f event w0, snd (eventFilter f event w0) = false).
Proof.
  intros Hr. apply reachable_invariant in Hr. destruct Hr as [_ _ _ _ Hr].
  simpl. unfold parent_resized.
  rewrite notify_parent_relay by exact Hr. simpl.
  repeat split.
  intros f w0 Hin. rewrite Hr in Hin. destruct Hin as [<- | []].
  reflexivity.
Qed.

Lemma parent_resize_is_relayed_witness :
  reachable sample /\
  size (parent_resized {| width := 800; height := 600 |} sample)
  = {| width := 800; height := 600 |}.
Proof.
  split; [exact reachable_sample |].
  apply (parent_resize_is_relayed {| width := 800; height := 600 |} sample).
  exact reachable_sample.
Defined.

(** C4, as stated, fails: after a first session of five ticks and a
    [hide], [start_spin] and three ticks leave the angle at 8, not 3. *)
Lemma start_spin_ticks_counterexample :
  reachable after_session /\
  _spin_angle (timer_fires 3 (start_spin after_session)) = 8 /\
  _spin_angle (timer_fires 3 (start_spin after_session)) <> Z.of_nat 3 mod 90.
Proof.
  split; [exact reachable_after_session |].
  split; [vm_compute; reflexivity | vm_compute; discriminate].
Qed.

(** C4, amended. [start_spin] followed by [N] timer ticks leaves the spin
    angle at [(a + N) mod 90], where [a] is the angle at the moment
    [start_spin] is called, an integer in [0, 90). *)
Theorem start_spin_then_ticks (N : nat) (w : OverlayWidget) :
  0 <= _spin_angle w < 90 ->
  _spin_angle (timer_fires N (start_spin w)) =
  (_spin_angle w + Z.of_nat N) mod 90.
Proof.
  intros Hrange.
  rewrite timer_fires_angle; [reflexivity | reflexivity | exact Hrange].
Qed.

Lemma start_spin_then_ticks_witness :
  0 <= _spin_angle after_session < 90 /\
  _spin_angle (timer_fires 3 (start_spin after_session)) =
  (_spin_angle after_session + Z.of_nat 3) mod 90.
Proof.
  assert (H : 0 <= _spin_angle after_session < 90).
  { assert (E : _spin_angle after_session = 5) by (vm_compute; reflexivity).
    rewrite E. lia. }
  split; [exact H | exact (start_spin_then_ticks 3 after_session H)].
Defined.

(** On an overlay just constructed the angle is 0, so there the angle
    after [N] ticks is [N mod 90]. *)
Lemma first_spin_then_ticks (N : nat) (parent : ParentWidget)
    (geometry : QSize) (sg_logo : QPixmap) :
  _spin_angle (timer_fires N (start_spin (__init__ parent geometry sg_logo)))
  = Z.of_nat N mod 90.
Proof.
  rewrite timer_fires_angle; simpl; [reflexivity | reflexivity | lia].
Qed.

(** The frame depends on the payload of the active mode alone. *)
Lemma render_same_active_payload (wa wb : OverlayWidget) :
  same_active_payload wa wb -> render wa = render wb.
Proof.
  intros (Hm & Hs & Hspin & Htext & Hpix).
  unfold render, paint_body.
  destruct (_mode wa =? MODE_SPIN) eqn:E1.
  { apply Z.eqb_eq in E1. destruct (Hspin E1) as [Ha Hi].
    rewrite <- Hm, <- Hs, <- Ha, <- Hi, E1. reflexivity. }
  destruct (_mode wa =? MODE_INFO_TEXT) eqn:E2.
  { apply Z.eqb_eq in E2. rewrite <- Hm, <- Hs, <- (Htext (or_intror E2)).
    rewrite E2. reflexivity. }
  destruct (_mode wa =? MODE_ERROR) eqn:E3.
  { apply Z.eqb_eq in E3. rewrite <- Hm, <- Hs, <- (Htext (or_introl E3)).
    rewrite E3. reflexivity. }
  destruct (_mode wa =? MODE_INFO_PIXMAP) eqn:E4.
  { apply Z.eqb_eq in E4. rewrite <- Hm, <- Hs, <- (Hpix E4).
    rewrite E4. reflexivity. }
  rewrite <- Hm, <- Hs, E1, E2, E3, E4. reflexivity.
Qed.

Lemma render_show_error_message (msg : option string) (w : OverlayWidget) :
  texts_drawn (frame_calls (render (show_error_message msg w))) = [msg] /\
  pixmaps_drawn (frame_calls (render (show_error_message msg w))) = [].
Proof.
  unfold show_error_message. rewrite render_repaint.
  match goal with
  | |- context [render ?W] =>
      destruct (render_text_modes W (or_introl eq_refl)) as (Ht & Hp & _)
  end.
  split; [exact Ht | exact Hp].
Qed.

Lemma render_show_message (msg : option string) (w : OverlayWidget) :
  texts_drawn (frame_calls (render (show_message msg w))) = [msg] /\
  pixmaps_drawn (frame_calls (render (show_message msg w))) = [].
Proof.
  unfold show_message. rewrite render_repaint.
  match goal with
  | |- context [render ?W] =>
      destruct (render_text_modes W (or_intror eq_refl)) as (Ht & Hp & _)
  end.
  split; [exact Ht | exact Hp].
Qed.

(** C5. After [show_error_message] with a text [x], the rendering draws
    the text [x] and nothing else from the payloads; after a following
    [show_message] with [y] it draws [y] alone.  In general a frame is
    determined by the mode, the surface and the payload of that mode: two
    overlays that agree on those render the same frame, whatever the
    payload fields of the other modes hold. *)
Theorem render_reads_active_payload (x y : string) (w : OverlayWidget) :
  let w1 := show_error_message (Some x) w in
  let w2 := show_message (Some y) w1 in
  texts_drawn (frame_calls (render w1)) = [Some x] /\
  pixmaps_drawn (frame_calls (render w1)) = [] /\
  texts_drawn (frame_calls (render w2)) = [Some y] /\
  pixmaps_drawn (frame_calls (render w2)) = [] /\
  (forall wa wb, same_active_payload wa wb -> render wa = render wb).
Proof.
  intros w1 w2.
  destruct (render_show_error_message (Some x) w) as [H1 H2].
  destruct (render_show_message (Some y) w1) as [H3 H4].
  split; [exact H1 |]. split; [exact H2 |].
  split; [exact H3 |]. split; [exact H4 |].
  exact render_same_active_payload.
Qed.

Lemma render_reads_active_payload_witness :
  same_active_payload shown_y shown_y_stale /\
  render shown_y = render shown_y_stale.
Proof.
  assert (H : same_active_payload shown_y shown_y_stale).
  { unfold same_active_payload.
    split; [vm_compute; reflexivity |].
    split; [vm_compute; reflexivity |].
    split; [intro Hm; vm_compute in Hm; discriminate Hm |].
    split; [intros _; vm_compute; reflexivity |].
    intro Hm; vm_compute in Hm; discriminate Hm. }
  split; [exact H |].
  exact (proj2 (proj2 (proj2 (proj2
           (render_reads_active_payload "x" "y" sample))))
           shown_y shown_y_stale H).
Defined.

(** C6. In every state [paintEvent] leaves the mode, the message, the
    message image and the spin angle as they were; in [MODE_OFF] it
    returns the state untouched, so no frame is drawn. *)
Theorem paintEvent_changes_no_state (w : OverlayWidget) :
  _mode (paintEvent w) = _mode w /\
  _message (paintEvent w) = _message w /\
  _message_pixmap (paintEvent w) = _message_pixmap w /\
  _spin_angle (paintEvent w) = _spin_angle w /\
  (_mode w = MODE_OFF ->
   paintEvent w = w /\ painted (paintEvent w) = painted w).
Proof.
  through_paint. repeat split; unfold paintEvent; rewrite H; reflexivity.
Qed.

Lemma paintEvent_changes_no_state_witness :
  _mode after_session = MODE_OFF /\
  paintEvent after_session = after_session.
Proof.
  assert (H : _mode after_session = MODE_OFF) by (vm_compute; reflexivity).
  split; [exact H |].
  exact (proj1 (proj2 (proj2 (proj2 (proj2
           (paintEvent_changes_no_state after_session)))) H)).
Defined.

(** C7. [on_animation] adds 1 to the spin angle, going from 89 to 0,
    and calls [repaint].  In every reachable state the angle is in
    [0, 90), and so it is after a tick and after any further call or
    toolkit event. *)
Theorem spin_angle_advances_within_range (w : OverlayWidget) :
  _spin_angle (on_animation w) =
    (if _spin_angle w =? 89 then 0 else _spin_angle w + 1) /\
  repaint_calls (on_animation w) = S (repaint_calls w) /\
  (reachable w ->
   0 <= _spin_angle w < 90 /\
   0 <= _spin_angle (on_animation w) < 90 /\
   (forall e, 0 <= _spin_angle (step e w) < 90)).
Proof.
  split; [apply on_animation_angle |].
  split; [apply (on_animation_fields w) |].
  intros Hr. pose proof (reachable_invariant w Hr) as Hinv.
  split; [apply Hinv |].
  split.
  - rewrite on_animation_angle. destruct Hinv as [_ _ Ha _ _].
    destruct (_spin_angle w =? 89) eqn:E; [lia |].
    apply Z.eqb_neq in E. lia.
  - intros e. apply (step_invariant e w Hinv).
Qed.

Lemma spin_angle_advances_within_range_witness :
  reachable after_session /\
  0 <= _spin_angle (on_animation after_session) < 90.
Proof.
  split; [exact reachable_after_session |].
  exact (proj1 (proj2 (proj2 (proj2
           (spin_angle_advances_within_range after_session))
           reachable_after_session))).
Defined.

(** C8. After [hide] the mode is [MODE_OFF], the timer is stopped and the
    overlay is invisible, whatever the state before, in particular right
    after a [show_message]; a second [hide] changes nothing.  In a
    reachable state whose mode is already [MODE_OFF], [hide] returns the
    very same state: no field changes and the timer is not started. *)
Theorem hide_is_idempotent (w : OverlayWidget) :
  _mode (hide w) = MODE_OFF /\
  isActive (_timer (hide w)) = false /\
  isVisible (hide w) = false /\
  hide (hide w) = hide w /\
  (forall msg,
     _mode (hide (show_message msg w)) = MODE_OFF /\
     isVisible (hide (show_message msg w)) = false) /\
  (reachable w -> _mode w = MODE_OFF -> hide w = w).
Proof.
  do 4 (split; [reflexivity |]).
  split; [intros msg; split; reflexivity |].
  intros Hr Hoff. apply reachable_invariant in Hr.
  destruct Hr as [Ht _ _ Hh _].
  specialize (Hh Hoff). unfold timer_iff_spinning in Ht.
  assert (Hstopped : isActive (_timer w) = false).
  { destruct (isActive (_timer w)); [| reflexivity].
    rewrite Hoff in Ht. destruct Ht as [Ht _].
    specialize (Ht eq_refl). discriminate. }
  destruct w as [p m [act itv] a mp ms ic v sz at_ rc pt].
  simpl in *. subst. reflexivity.
Qed.

Lemma hide_is_idempotent_witness :
  reachable after_session /\ _mode after_session = MODE_OFF /\
  hide after_session = after_session.
Proof.
  assert (H : _mode after_session = MODE_OFF) by (vm_compute; reflexivity).
  split; [exact reachable_after_session |].
  split; [exact H |].
  exact (proj2 (proj2 (proj2 (proj2 (proj2
           (hide_is_idempotent after_session)))))
           reachable_after_session H).
Defined.

(** C9. In [MODE_SPIN] the frame holds one arc.  Its start angle is
    [_spin_angle * 4] degrees handed over in the painter's unit, the
    sixteenth of a degree, that is the integer [_spin_angle * 64]; its
    span is 340 degrees in the same unit, positive and short of the full
    circle. *)
Theorem spinner_arc_angles (w : OverlayWidget) :
  _mode w = MODE_SPIN ->
  arcs_drawn (frame_calls (render w)) =
    [(Qt.angle_units (_spin_angle w * 4), Qt.angle_units 340)] /\
  Qt.angle_units (_spin_angle w * 4) = _spin_angle w * 64 /\
  0 < Qt.angle_units 340 < Qt.full_circle.
Proof.
  intros H. destruct (render_spin_mode w H) as (_ & _ & Harc).
  rewrite Harc. unfold Qt.full_circle, Qt.angle_units.
  repeat split; try lia.
Qed.

Lemma spinner_arc_angles_witness :
  _mode (start_spin after_session) = MODE_SPIN /\
  arcs_drawn (frame_calls (render (start_spin after_session))) =
    [(Qt.angle_units (_spin_angle (start_spin after_session) * 4),
      Qt.angle_units 340)].
Proof.
  assert (H : _mode (start_spin after_session) = MODE_SPIN)
    by (vm_compute; reflexivity).
  split; [exact H |].
  exact (proj1 (spinner_arc_angles (start_spin after_session) H)).
Defined.



(** * Further properties of the painting code *)

(** X1. [show_message_pixmap] does not check its argument.  Handed
    [None], it still switches to [MODE_INFO_PIXMAP] and shows the overlay;
    the repaint it triggers draws the backdrop, raises when it asks the
    missing image for its width, and closes the frame there.  The state
    stays that way, so every later paint event ends the same. *)
Theorem show_message_pixmap_none (w : OverlayWidget) :
  let w' := show_message_pixmap None w in
  _mode w' = MODE_INFO_PIXMAP /\
  isVisible w' = true /\
  _message_pixmap w' = None /\
  painted w' = painted w ++ [broken_frame (size w)] /\
  painted (paintEvent w') = painted w' ++ [broken_frame (size w)].
Proof.
  intros w'. subst w'. unfold show_message_pixmap.
  split; [through_paint; reflexivity |].
  split; [through_paint; reflexivity |].
  split; [through_paint; reflexivity |].
  split.
  - rewrite repaint_painted. reflexivity.
  - rewrite paintEvent_painted. through_paint.
    rewrite render_repaint. reflexivity.
Qed.

(** X2. Whatever the mode and the payloads, a frame opens with the
    backdrop over the whole surface of the overlay. *)
Theorem render_opens_with_backdrop (w : OverlayWidget) :
  exists rest, frame_calls (render w) = backdrop (size w) ++ rest.
Proof.
  unfold render, paint_body.
  destruct (_mode w =? MODE_SPIN); [eexists; reflexivity |].
  destruct (_mode w =? MODE_INFO_TEXT); [eexists; reflexivity |].
  destruct (_mode w =? MODE_ERROR); [eexists; reflexivity |].
  destruct (_mode w =? MODE_INFO_PIXMAP); [| eexists; reflexivity].
  destruct (_message_pixmap w); eexists; reflexivity.
Qed.

(** X3. In [MODE_INFO_PIXMAP] with an image present, the frame is the
    backdrop, one translation and the image at the origin, and it ends
    normally.  The translation centres the image up to the rounding of
    the two floor divisions: twice the offset misses the free space by at
    most one pixel in each direction. *)
Theorem pixmap_is_centred (w : OverlayWidget) (image : QPixmap) :
  _mode w = MODE_INFO_PIXMAP -> _message_pixmap w = Some image ->
  let dx := width (size w) / 2 - pixmap_width image / 2 in
  let dy := height (size w) / 2 - pixmap_height image / 2 in
  render w =
    {| frame_calls :=
         backdrop (size w) ++ [translate dx dy; drawPixmap 0 0 image];
       frame_outcome := Returned tt |} /\
  -1 <= (width (size w) - pixmap_width image) - 2 * dx <= 1 /\
  -1 <= (height (size w) - pixmap_height image) - 2 * dy <= 1.
Proof.
  intros Hm Hp dx dy. split.
  - unfold render, paint_body. rewrite Hm, Hp. reflexivity.
  - subst dx dy.
    generalize (width (size w)) (height (size w))
      (pixmap_width image) (pixmap_height image).
    intros W H pw ph.
    pose proof (Z.div_mod W 2). pose proof (Z.mod_pos_bound W 2).
    pose proof (Z.div_mod H 2). pose proof (Z.mod_pos_bound H 2).
    pose proof (Z.div_mod pw 2). pose proof (Z.mod_pos_bound pw 2).
    pose proof (Z.div_mod ph 2). pose proof (Z.mod_pos_bound ph 2).
    lia.
Qed.

Lemma pixmap_is_centred_witness :
  _mode showing_picture = MODE_INFO_PIXMAP /\
  _message_pixmap showing_picture = Some picture /\
  -1 <= (width (size showing_picture) - pixmap_width picture)
        - 2 * (width (size showing_picture) / 2 - pixmap_width picture / 2)
     <= 1.
Proof.
  assert (Hm : _mode showing_picture = MODE_INFO_PIXMAP)
    by (vm_compute; reflexivity).
  assert (Hp : _message_pixmap showing_picture = Some picture)
    by (vm_compute; reflexivity).
  split; [exact Hm |]. split; [exact Hp |].
  exact (proj1 (proj2 (pixmap_is_centred showing_picture picture Hm Hp))).
Defined.

(** X4. Painting twice in a row draws the same frame twice: the second
    paint event sees the state the first one saw. *)
Theorem paintEvent_twice (w : OverlayWidget) :
  _mode w <> MODE_OFF ->
  painted (paintEvent (paintEvent w)) = painted w ++ [render w; render w].
Proof.
  intros Hon. apply Z.eqb_neq in Hon.
  rewrite paintEvent_painted. through_paint. rewrite Hon.
  rewrite paintEvent_painted, Hon. rewrite <- app_assoc. simpl.
  do 3 f_equal. apply render_congr; through_paint; reflexivity.
Qed.

Lemma paintEvent_twice_witness :
  _mode spinning <> MODE_OFF /\
  painted (paintEvent (paintEvent spinning)) =
  painted spinning ++ [render spinning; render spinning].
Proof.
  assert (H : _mode spinning <> MODE_OFF) by (vm_compute; discriminate).
  split; [exact H | exact (paintEvent_twice spinning H)].
Defined.

(** * Further properties of the animation *)

Lemma on_animation_painted (w : OverlayWidget) :
  painted (on_animation w) =
  if isVisible w && negb (_mode w =? MODE_OFF)
  then painted w ++ [render (on_animation w)] else painted w.
Proof.
  unfold on_animation. cbv zeta. rewrite repaint_painted, render_repaint.
  destruct (_spin_angle (set_spin_angle (_spin_angle w + 1) w) =? 90);
    reflexivity.
Qed.

Lemma on_animation_config (w : OverlayWidget) :
  _sg_icon (on_animation w) = _sg_icon w /\
  attributes (on_animation w) = attributes w.
Proof.
  unfold on_animation. cbv zeta. through_paint.
  destruct (_spin_angle (set_spin_angle (_spin_angle w + 1) w) =? 90);
    split; reflexivity.
Qed.

(** Ticks change the angle and the logs, nothing else. *)
Lemma timer_fires_keeps (n : nat) (w : OverlayWidget) :
  _parent (timer_fires n w) = _parent w /\
  _mode (timer_fires n w) = _mode w /\
  isVisible (timer_fires n w) = isVisible w /\
  size (timer_fires n w) = size w /\
  _message (timer_fires n w) = _message w /\
  _message_pixmap (timer_fires n w) = _message_pixmap w /\
  _sg_icon (timer_fires n w) = _sg_icon w /\
  attributes (timer_fires n w) = attributes w.
Proof.
  induction n as [| n IH]; [repeat split |].
  change (timer_fires (S n) w) with (timeout (timer_fires n w)).
  destruct IH as (Hp & Hm & Hv & Hs & Ht & Hx & Hi & Ha).
  unfold timeout. destruct (isActive (_timer (timer_fires n w))).
  - destruct (on_animation_fields (timer_fires n w))
      as (Ep & Em & _ & Ev & Es & Et & Ex & _).
    destruct (on_animation_config (timer_fires n w)) as (Ei & Ea).
    rewrite Ep, Em, Ev, Es, Et, Ex, Ei, Ea.
    repeat split; assumption.
  - repeat split; assumption.
Qed.

(** X5. The animation has period 90: with the timer running, ninety more
    ticks bring back the same angle and so the same frame.  One tick turns
    the arc by 4 degrees, ninety by the full circle. *)
Theorem animation_period (n : nat) (w : OverlayWidget) :
  isActive (_timer w) = true -> 0 <= _spin_angle w < 90 ->
  _spin_angle (timer_fires (n + 90) w) = _spin_angle (timer_fires n w) /\
  render (timer_fires (n + 90) w) = render (timer_fires n w) /\
  Qt.angle_units (90 * 4) = Qt.full_circle.
Proof.
  intros Hact Hrange.
  assert (Hangle : _spin_angle (timer_fires (n + 90) w)
                   = _spin_angle (timer_fires n w)).
  { rewrite !timer_fires_angle by assumption.
    rewrite Nat2Z.inj_add. change (Z.of_nat 90) with (1 * 90).
    rewrite Z.add_assoc. apply Z.mod_add. lia. }
  split; [exact Hangle |]. split; [| reflexivity].
  destruct (timer_fires_keeps (n + 90) w) as (_ & Hm & _ & Hs & Ht & Hx & Hi & _).
  destruct (timer_fires_keeps n w) as (_ & Hm' & _ & Hs' & Ht' & Hx' & Hi' & _).
  apply render_congr; congruence.
Qed.

Lemma animation_period_witness :
  isActive (_timer spinning) = true /\ 0 <= _spin_angle spinning < 90 /\
  _spin_angle (timer_fires (7 + 90) spinning) =
  _spin_angle (timer_fires 7 spinning).
Proof.
  assert (Ha : isActive (_timer spinning) = true) by (vm_compute; reflexivity).
  assert (Hr : 0 <= _spin_angle spinning < 90).
  { assert (E : _spin_angle spinning = 0) by (vm_compute; reflexivity).
    rewrite E. lia. }
  split; [exact Ha |]. split; [exact Hr |].
  exact (proj1 (animation_period 7 spinning Ha Hr)).
Defined.

(** X6. Every call but [start_spin] leaves the timer stopped, so timer
    ticks arriving afterwards change nothing at all. *)
Theorem ticks_after_stop_are_inert (c : Call) (n : nat) (w : OverlayWidget) :
  c <> call_start_spin ->
  isActive (_timer (perform c w)) = false /\
  timer_fires n (perform c w) = perform c w.
Proof.
  intros Hc.
  assert (Hstop : isActive (_timer (perform c w)) = false).
  { destruct c; simpl;
      unfold show_error_message, show_message, show_message_pixmap, hide;
      through_paint; try reflexivity.
    contradiction Hc. reflexivity. }
  split; [exact Hstop |].
  induction n as [| n IH]; [reflexivity |].
  change (timer_fires (S n) (perform c w))
    with (timeout (timer_fires n (perform c w))).
  rewrite IH. unfold timeout. rewrite Hstop. reflexivity.
Qed.

Lemma ticks_after_stop_are_inert_witness :
  call_hide <> call_start_spin /\
  timer_fires 3 (perform call_hide spinning) = perform call_hide spinning.
Proof.
  assert (H : call_hide <> call_start_spin) by discriminate.
  split; [exact H |].
  exact (proj2 (ticks_after_stop_are_inert call_hide 3 spinning H)).
Defined.

(** X7. While the overlay spins and is shown, a tick draws exactly one
    frame, and that frame shows the angle the tick has just set. *)
Theorem tick_draws_new_angle (w : OverlayWidget) :
  _mode w = MODE_SPIN -> isVisible w = true -> isActive (_timer w) = true ->
  painted (timeout w) = painted w ++ [render (timeout w)] /\
  arcs_drawn (frame_calls (render (timeout w))) =
    [(Qt.angle_units (_spin_angle (timeout w) * 4), Qt.angle_units 340)].
Proof.
  intros Hm Hv Ha. unfold timeout. rewrite Ha. split.
  - rewrite on_animation_painted, Hv, Hm. reflexivity.
  - assert (Hm' : _mode (on_animation w) = MODE_SPIN).
    { rewrite (proj1 (proj2 (on_animation_fields w))). exact Hm. }
    rewrite (proj2 (proj2 (render_spin_mode _ Hm'))).
    unfold Qt.angle_units. reflexivity.
Qed.

Lemma tick_draws_new_angle_witness :
  _mode spinning = MODE_SPIN /\ isVisible spinning = true /\
  isActive (_timer spinning) = true /\
  painted (timeout spinning) = painted spinning ++ [render (timeout spinning)].
Proof.
  assert (Hm : _mode spinning = MODE_SPIN) by (vm_compute; reflexivity).
  assert (Hv : isVisible spinning = true) by (vm_compute; reflexivity).
  assert (Ha : isActive (_timer spinning) = true) by (vm_compute; reflexivity).
  split; [exact Hm |]. split; [exact Hv |]. split; [exact Ha |].
  exact (proj1 (tick_draws_new_angle spinning Hm Hv Ha)).
Defined.

(** X8. [start_spin] itself neither repaints nor draws; each of the [N]
    ticks that follow asks for one repaint and adds one frame. *)
Theorem spin_session_frames (N : nat) (w : OverlayWidget) :
  repaint_calls (start_spin w) = repaint_calls w /\
  painted (start_spin w) = painted w /\
  repaint_calls (timer_fires N (start_spin w)) = (repaint_calls w + N)%nat /\
  List.length (painted (timer_fires N (start_spin w))) =
    (List.length (painted w) + N)%nat.
Proof.
  split; [reflexivity |]. split; [reflexivity |].
  induction N as [| N [IHr IHp]].
  - simpl. rewrite !Nat.add_0_r. split; reflexivity.
  - change (timer_fires (S N) (start_spin w))
      with (timeout (timer_fires N (start_spin w))).
    destruct (timer_fires_keeps N (start_spin w)) as (_ & Hm & Hv & _).
    pose proof (timer_fires_timer N (start_spin w)) as Ht.
    unfold timeout. rewrite Ht.
    change (isActive (_timer (start_spin w))) with true. cbv iota.
    split.
    + rewrite (proj2 (proj2 (proj2 (proj2 (proj2 (proj2 (proj2
                (on_animation_fields _)))))))).
      rewrite IHr. lia.
    + rewrite on_animation_painted, Hv, Hm.
      change (isVisible (start_spin w)) with true.
      change (_mode (start_spin w)) with MODE_SPIN.
      simpl. rewrite length_app, IHp. simpl. lia.
Qed.

(** * Further properties of runs *)

Ltac unfold_calls :=
  unfold show_error_message, show_message, show_message_pixmap, start_spin,
    hide.

(** What one event does to the payloads and to the fields set up by the
    constructor. *)
Lemma step_effect (e : Event) (w : OverlayWidget) :
  invariant w ->
  _message (step e w) = text_after e (_message w) /\
  _message_pixmap (step e w) = image_after e (_message_pixmap w) /\
  attributes (step e w) = attributes w /\
  _sg_icon (step e w) = _sg_icon w /\
  (is_parent_event e = false ->
   size (step e w) = size w /\ _parent (step e w) = _parent w).
Proof.
  intros [_ _ _ _ Hr]. destruct e as [c | | | sz | event]; simpl.
  - destruct c; simpl; unfold_calls; through_paint; repeat split.
  - unfold timeout. destruct (isActive (_timer w)); [| repeat split].
    destruct (on_animation_fields w) as (Ep & _ & _ & _ & Es & Et & Ex & _).
    destruct (on_animation_config w) as (Ei & Ea).
    rewrite Ep, Es, Et, Ex, Ei, Ea. repeat split.
  - unfold paint_request. destruct (isVisible w); through_paint; repeat split.
  - unfold parent_resized. rewrite notify_parent_relay by exact Hr.
    repeat split; discriminate.
  - rewrite notify_parent_relay by exact Hr.
    destruct (event_type event =? Qt.QEvent_Resize); repeat split;
      discriminate.
Qed.

(** Events other than calls leave mode, timer and visibility alone. *)
Lemma step_keeps_mode (e : Event) (w : OverlayWidget) :
  invariant w -> (forall c, e <> Public c) ->
  _mode (step e w) = _mode w /\ _timer (step e w) = _timer w /\
  isVisible (step e w) = isVisible w.
Proof.
  intros [_ _ _ _ Hr] Hc. destruct e as [c | | | sz | event]; simpl.
  - exfalso. apply (Hc c). reflexivity.
  - unfold timeout. destruct (isActive (_timer w)); [| repeat split].
    destruct (on_animation_fields w) as (_ & Em & Et & Ev & _).
    rewrite Em, Et, Ev. repeat split.
  - unfold paint_request. destruct (isVisible w) eqn:E; through_paint;
      repeat split; assumption.
  - unfold parent_resized. rewrite notify_parent_relay by exact Hr.
    repeat split.
  - rewrite notify_parent_relay by exact Hr.
    destruct (event_type event =? Qt.QEvent_Resize); repeat split.
Qed.

Lemma perform_shown_when_on (c : Call) (w : OverlayWidget) :
  shown_when_on (perform c w).
Proof.
  destruct c; simpl; unfold_calls; constructor; through_paint;
    (reflexivity || (simpl; discriminate) || (intros _; reflexivity)).
Qed.

Lemma step_shown_when_on (e : Event) (w : OverlayWidget) :
  invariant w -> shown_when_on w -> shown_when_on (step e w).
Proof.
  intros Hinv [Hv Hi].
  destruct e as [c | | | sz | event];
    try apply perform_shown_when_on;
    match goal with
    | |- shown_when_on (step ?e w) =>
        destruct (step_keeps_mode e w Hinv) as (Em & Et & Ev);
          [intros c; discriminate |];
          constructor; rewrite ?Em, ?Et, ?Ev; assumption
    end.
Qed.

Lemma run_invariants (es : list Event) (w : OverlayWidget) :
  invariant w -> shown_when_on w ->
  invariant (run es w) /\ shown_when_on (run es w).
Proof.
  revert w. induction es as [| e es IH]; intros w Hinv Hs; simpl.
  - split; assumption.
  - apply IH; [apply step_invariant | apply step_shown_when_on]; assumption.
Qed.

Lemma reachable_shown_when_on (w : OverlayWidget) :
  reachable w -> shown_when_on w.
Proof.
  intros (parent_sz & geometry & sg_logo & es & ->).
  apply run_invariants; [apply invariant_init |].
  constructor; [reflexivity | discriminate].
Qed.

(** X9. In every reachable state the overlay is shown exactly when its
    mode is not [MODE_OFF]. *)
Theorem visible_iff_on (w : OverlayWidget) :
  reachable w -> (isVisible w = true <-> _mode w <> MODE_OFF).
Proof.
  intros Hr. destruct (reachable_shown_when_on w Hr) as [Hv _].
  rewrite Hv. destruct (_mode w =? MODE_OFF) eqn:E; simpl.
  - apply Z.eqb_eq in E. split; [discriminate | intros H; contradiction].
  - apply Z.eqb_neq in E. split; [intros _; exact E | reflexivity].
Qed.

Lemma visible_iff_on_witness :
  reachable after_session /\
  (isVisible after_session = true <-> _mode after_session <> MODE_OFF).
Proof.
  split; [exact reachable_after_session |].
  exact (visible_iff_on after_session reachable_after_session).
Defined.

(** X10. In every reachable state a running timer has the interval of
    40 ms that [start_spin] gives it. *)
Theorem running_timer_interval (w : OverlayWidget) :
  reachable w -> isActive (_timer w) = true -> interval (_timer w) = 40.
Proof.
  intros Hr. apply (reachable_shown_when_on w Hr).
Qed.

Lemma reachable_spinning : reachable spinning.
Proof.
  exists {| width := 640; height := 480 |}, {| width := 100; height := 30 |},
    logo, [Public call_start_spin].
  reflexivity.
Defined.

Lemma running_timer_interval_witness :
  reachable spinning /\ isActive (_timer spinning) = true /\
  interval (_timer spinning) = 40.
Proof.
  assert (Ha : isActive (_timer spinning) = true) by (vm_compute; reflexivity).
  split; [exact reachable_spinning |]. split; [exact Ha |].
  exact (running_timer_interval spinning reachable_spinning Ha).
Defined.

(** X11. In a reachable state whose mode is [MODE_OFF] the overlay is
    inert: a timer tick, a paint request and a direct [paintEvent] all
    return the state as it was. *)
Theorem off_is_inert (w : OverlayWidget) :
  reachable w -> _mode w = MODE_OFF ->
  step TimerFired w = w /\ step PaintRequested w = w /\ paintEvent w = w.
Proof.
  intros Hr Hoff. destruct (reachable_invariant w Hr) as [Ht _ _ Hh _].
  simpl. unfold timeout, paint_request, paintEvent.
  rewrite (Hh Hoff), Hoff. simpl.
  destruct (isActive (_timer w)) eqn:E; [| repeat split].
  apply Ht in E. rewrite Hoff in E. discriminate.
Qed.

Lemma off_is_inert_witness :
  reachable after_session /\ _mode after_session = MODE_OFF /\
  step TimerFired after_session = after_session.
Proof.
  assert (H : _mode after_session = MODE_OFF) by (vm_compute; reflexivity).
  split; [exact reachable_after_session |]. split; [exact H |].
  exact (proj1 (off_is_inert after_session reachable_after_session H)).
Defined.

Lemma parent_resize_size (sz : QSize) (w : OverlayWidget) :
  invariant w ->
  size (parent_resized sz w) = sz /\
  parent_size (_parent (parent_resized sz w)) = sz.
Proof.
  intros [_ _ _ _ Hr]. unfold parent_resized.
  rewrite notify_parent_relay by exact Hr. split; reflexivity.
Qed.

(** X12. Once the parent has been resized, the overlay has the size of
    its parent, and keeps it through every later call and event. *)
Theorem overlay_stays_synced (sz : QSize) (es : list Event)
    (w : OverlayWidget) :
  reachable w -> synced (run es (parent_resized sz w)).
Proof.
  intros Hr.
  assert (Hinv : invariant (parent_resized sz w))
    by (apply (step_invariant (ParentResized sz)), reachable_invariant, Hr).
  assert (Hs : synced (parent_resized sz w)).
  { unfold synced.
    destruct (parent_resize_size sz w (reachable_invariant w Hr)) as [-> ->].
    reflexivity. }
  revert Hinv Hs. generalize (parent_resized sz w). clear w Hr.
  induction es as [| e es IH]; intros w Hinv Hs; simpl; [exact Hs |].
  apply IH; [apply step_invariant; exact Hinv |].
  unfold synced in *.
  destruct (is_parent_event e) eqn:Ep.
  - destruct Hinv as [_ _ _ _ Hrel].
    destruct e as [c | | | sz' | event]; try discriminate; simpl.
    + unfold parent_resized. rewrite notify_parent_relay by exact Hrel.
      reflexivity.
    + rewrite notify_parent_relay by exact Hrel.
      destruct (event_type event =? Qt.QEvent_Resize); [reflexivity |].
      exact Hs.
  - destruct (step_effect e w Hinv) as (_ & _ & _ & _ & Hkeep).
    destruct (Hkeep Ep) as [-> ->]. exact Hs.
Qed.

Lemma overlay_stays_synced_witness :
  reachable sample /\
  synced (run [Public call_start_spin; TimerFired]
            (parent_resized {| width := 800; height := 600 |} sample)).
Proof.
  split; [exact reachable_sample |].
  exact (overlay_stays_synced {| width := 800; height := 600 |}
           [Public call_start_spin; TimerFired] sample reachable_sample).
Defined.

Lemma run_without_parent_events (es : list Event) (w : OverlayWidget) :
  invariant w ->
  forallb (fun e => negb (is_parent_event e)) es = true ->
  size (run es w) = size w /\ _parent (run es w) = _parent w.
Proof.
  revert w. induction es as [| e es IH]; intros w Hinv Hes; simpl;
    [split; reflexivity |].
  simpl in Hes. apply andb_prop in Hes. destruct Hes as [He Hes].
  apply negb_true_iff in He.
  destruct (step_effect e w Hinv) as (_ & _ & _ & _ & Hkeep).
  destruct (Hkeep He) as [Es Ep].
  destruct (IH (step e w) (step_invariant e w Hinv) Hes) as [H1 H2].
  fold (run es (step e w)).
  rewrite H1, H2, Es, Ep. split; reflexivity.
Qed.

(** X13. The constructor does not size the overlay: until the first
    event on the parent, the overlay keeps the geometry it was created
    with, whatever the size of the parent. *)
Theorem geometry_until_parent_event (parent_sz geometry : QSize)
    (sg_logo : QPixmap) (es : list Event) :
  forallb (fun e => negb (is_parent_event e)) es = true ->
  let w := run es (__init__ (fresh_parent parent_sz) geometry sg_logo) in
  size w = geometry /\ parent_size (_parent w) = parent_sz.
Proof.
  intros Hes w. subst w.
  destruct (run_without_parent_events es
              (__init__ (fresh_parent parent_sz) geometry sg_logo)
              (invariant_init parent_sz geometry sg_logo) Hes) as [Hs Hp].
  rewrite Hs, Hp. split; reflexivity.
Qed.

Lemma geometry_until_parent_event_witness :
  forallb (fun e => negb (is_parent_event e))
    [Public call_start_spin; TimerFired; Public call_hide] = true /\
  size (run [Public call_start_spin; TimerFired; Public call_hide] sample)
  = {| width := 100; height := 30 |}.
Proof.
  assert (H : forallb (fun e => negb (is_parent_event e))
                [Public call_start_spin; TimerFired; Public call_hide] = true)
    by reflexivity.
  split; [exact H |].
  exact (proj1 (geometry_until_parent_event
                  {| width := 640; height := 480 |}
                  {| width := 100; height := 30 |} logo
                  [Public call_start_spin; TimerFired; Public call_hide] H)).
Defined.

(** Mode, timer activity and visibility after a call depend on the call
    alone, not on the state it is made in. *)
Lemma perform_outcome (c : Call) (w1 w2 : OverlayWidget) :
  _mode (perform c w1) = _mode (perform c w2) /\
  isActive (_timer (perform c w1)) = isActive (_timer (perform c w2)) /\
  isVisible (perform c w1) = isVisible (perform c w2).
Proof.
  destruct c; simpl; unfold_calls; through_paint; repeat split.
Qed.

(** X14. The last call wins: after any sequence of calls, the mode, the
    timer activity and the visibility are those the last call alone would
    have produced. *)
Theorem last_call_wins (cs : list Call) (c : Call) (w : OverlayWidget) :
  _mode (perform_all (cs ++ [c]) w) = _mode (perform c w) /\
  isActive (_timer (perform_all (cs ++ [c]) w)) =
    isActive (_timer (perform c w)) /\
  isVisible (perform_all (cs ++ [c]) w) = isVisible (perform c w).
Proof.
  unfold perform_all. rewrite fold_left_app. simpl.
  apply perform_outcome.
Qed.

(** X15. The stored message is the argument of the last
    [show_error_message] or [show_message] so far, and the stored image
    that of the last [show_message_pixmap]; both are [None] before the
    first such call.  No other call or event clears or changes them. *)
Theorem payloads_are_last_shown (parent_sz geometry : QSize)
    (sg_logo : QPixmap) (es : list Event) :
  let w := run es (__init__ (fresh_parent parent_sz) geometry sg_logo) in
  _message w = fold_left (fun text e => text_after e text) es None /\
  _message_pixmap w = fold_left (fun image e => image_after e image) es None.
Proof.
  intros w. subst w.
  pose proof (invariant_init parent_sz geometry sg_logo) as Hinv.
  change (@None string)
    with (_message (__init__ (fresh_parent parent_sz) geometry sg_logo)).
  change (@None QPixmap)
    with (_message_pixmap
            (__init__ (fresh_parent parent_sz) geometry sg_logo)).
  revert Hinv.
  generalize (__init__ (fresh_parent parent_sz) geometry sg_logo).
  induction es as [| e es IH]; intros w Hinv; simpl; [split; reflexivity |].
  destruct (step_effect e w Hinv) as (Et & Ex & _).
  rewrite <- Et, <- Ex. apply IH. apply step_invariant. exact Hinv.
Qed.

(** X16. In every reachable state the relay hands every event sent to
    the parent on, once; an event that is not a resize changes nothing
    else, and a resize event sets the size of the overlay to the size of
    the parent. *)
Theorem relay_passes_everything_on (event : QEvent) (w : OverlayWidget) :
  reachable w ->
  passed_on (_parent (notify_parent event w)) =
    passed_on (_parent w) ++ [event] /\
  (event_type event <> Qt.QEvent_Resize ->
   notify_parent event w = pass_on event w) /\
  (event_type event = Qt.QEvent_Resize ->
   size (notify_parent event w) = parent_size (_parent w)).
Proof.
  intros Hr. destruct (reachable_invariant w Hr) as [_ _ _ _ Hrel].
  rewrite notify_parent_relay by exact Hrel.
  destruct (event_type event =? Qt.QEvent_Resize) eqn:E.
  - apply Z.eqb_eq in E. split; [reflexivity |].
    split; [intros Hne; contradiction | reflexivity].
  - apply Z.eqb_neq in E. split; [reflexivity |].
    split; [reflexivity | intros He; contradiction].
Qed.

Lemma relay_passes_everything_on_witness :
  reachable sample /\
  passed_on (_parent (notify_parent {| event_type := 5 |} sample)) =
    passed_on (_parent sample) ++ [{| event_type := 5 |}].
Proof.
  split; [exact reachable_sample |].
  exact (proj1 (relay_passes_everything_on {| event_type := 5 |} sample
                  reachable_sample)).
Defined.

(** X17. What the constructor sets up stays: after any run the overlay
    is still transparent for mouse events, still draws the icon it
    loaded, and its parent still carries the one relay, connected to the
    one slot. *)
Theorem constructor_setup_is_kept (parent_sz geometry : QSize)
    (sg_logo : QPixmap) (es : list Event) :
  let w := run es (__init__ (fresh_parent parent_sz) geometry sg_logo) in
  attributes w = [Qt.WA_TransparentForMouseEvents] /\
  _sg_icon w = sg_logo /\
  eventFilters (_parent w) = [{| resized := [slot_on_parent_resized] |}].
Proof.
  intros w. subst w.
  pose proof (invariant_init parent_sz geometry sg_logo) as Hinv.
  split; [| split].
  - change [Qt.WA_TransparentForMouseEvents]
      with (attributes (__init__ (fresh_parent parent_sz) geometry sg_logo)).
    revert Hinv.
    generalize (__init__ (fresh_parent parent_sz) geometry sg_logo).
    induction es as [| e es IH]; intros w Hinv; simpl; [reflexivity |].
    destruct (step_effect e w Hinv) as (_ & _ & Ea & _).
    rewrite <- Ea. apply IH. apply step_invariant. exact Hinv.
  - change sg_logo
      with (_sg_icon (__init__ (fresh_parent parent_sz) geometry sg_logo))
      at 2.
    revert Hinv.
    generalize (__init__ (fresh_parent parent_sz) geometry sg_logo).
    induction es as [| e es IH]; intros w Hinv; simpl; [reflexivity |].
    destruct (step_effect e w Hinv) as (_ & _ & _ & Ei & _).
    rewrite <- Ei. apply IH. apply step_invariant. exact Hinv.
  - apply (run_invariant es _ Hinv).
Qed.
